(** * sixtyfps.h: the C++ binding surface of the SixtyFPS runtime

    A shallow embedding of [api/sixtyfps-cpp/include/sixtyfps.h]:
    the item-tree node constructor [make_item_node], the no-op destructor
    [dummy_destory] and the entry point [run], followed by the properties
    the specification states about them. *)

From Stdlib Require Import ZArith NArith List Lia Bool Morphisms.
From ITree Require Import ITree ITreeFacts Events.State Events.StateFacts Props.Leaf.
Import ListNotations.
Import ITreeNotations.
Local Open Scope itree_scope.

Set Implicit Arguments.

(** ** Machine-level data *)

(** [std::intptr_t]: a signed integer; the header never does arithmetic on
    it, so no wrap-around is involved. *)
Definition intptr_t : Type := Z.

(** [uint32_t]: an unsigned integer; the header only stores such values
    and never computes with them. *)
Definition uint32_t : Type := N.

(** A pointer to a [T]: an address, typed by its pointee. *)
Record ptr (T : Type) : Type := Ptr { addr : Z }.
Arguments Ptr {T} addr.
Arguments addr {T} p.

(** [reinterpret_cast<B *>(p)]: the same address, seen at another type. *)
Definition reinterpret_cast {A B : Type} (p : ptr A) : ptr B :=
  Ptr (addr p).

(** ** namespace sixtyfps::internal

    What the header takes from [sixtyfps_internal.h] and
    [sixtyfps_gl_internal.h]. *)
Module internal.

(** [struct ComponentType;] is only forward-declared: an opaque type that
    is handled through pointers. *)
Inductive ComponentType : Type := .

(** [ComponentImpl] and [ItemVTable] are likewise used only behind
    pointers. *)
Inductive ComponentImpl : Type := .
Inductive ItemVTable : Type := .

(** Modelled from the spec: the declaration of [ItemTreeNode] lives in
    [sixtyfps_internal.h], which is not part of the sources. The
    initialiser in [make_item_node] fixes its shape (a tag followed by a
    union whose first member is [Item_Body], itself four fields in the
    order offset, vtable, child count, child index); the second tag
    [DynamicTree] comes from the specification, which leaves its body
    open, so that body is a parameter [D]. *)
Module ItemTreeNode.

Variant Tag : Type := Item | DynamicTree.

Record Item_Body : Type := {
  offset : intptr_t;
  vtable : ptr ItemVTable;
  child_count : uint32_t;
  child_index : uint32_t
}.

(** The anonymous union: exactly one member is active. *)
Variant Body (D : Type) : Type :=
| item (b : Item_Body)
| dynamic_tree (d : D).
Arguments item {D} b.
Arguments dynamic_tree {D} d.

Record t (D : Type) : Type := {
  tag : Tag;
  body : Body D
}.

(** Reading [node.item]: defined when [item] is the active member. *)
Definition read_item {D : Type} (node : t D) : option Item_Body :=
  match body node with
  | item b => Some b
  | dynamic_tree _ => None
  end.

(** The tag agrees with the active member of the union. *)
Definition consistent {D : Type} (node : t D) : Prop :=
  match tag node, body node with
  | Item, item _ => True
  | DynamicTree, dynamic_tree _ => True
  | _, _ => False
  end.

End ItemTreeNode.

Abbreviation ItemTreeNode := ItemTreeNode.t.

(** The entry point of the GL renderer, declared in
    [sixtyfps_gl_internal.h] and implemented by the runtime: from the
    header's side an external call, taking a component type and a
    component instance and answering nothing. *)
Variant runtimeE : Type -> Type :=
| sixtyfps_runtime_run_component_with_gl_renderer
    (component_type : ptr ComponentType) (component : ptr ComponentImpl) :
    runtimeE unit.

End internal.

(** ** namespace sixtyfps *)
Module sixtyfps.
Import internal.
Import ItemTreeNode.

(** What [run] asks of its template parameter: a static member
    [Component::component_type]. The field is the location of that
    member, which is what [&Component::component_type] evaluates to. *)
Class GeneratedComponent (Component : Type) : Type := {
  component_type : ptr ComponentType
}.
Arguments component_type Component {_}.

(** [template<typename Component> void run(Component *c)] *)
Definition run {Component : Type} `{GeneratedComponent Component}
    (c : ptr Component) : itree runtimeE unit :=
  ITree.trigger
    (sixtyfps_runtime_run_component_with_gl_renderer
       (component_type Component) (reinterpret_cast c)) ;;
  Ret tt.

(** [inline void dummy_destory]: takes a pointer to a const
    [ComponentType] and a pointer to a [ComponentImpl], names neither,
    and has an empty body. *)
Definition dummy_destory {E : Type -> Type}
    (_ : ptr ComponentType) (_ : ptr ComponentImpl) : itree E unit :=
  Ret tt.

(** [constexpr inline ItemTreeNode make_item_node(...)] *)
Definition make_item_node {D : Type} (offset : intptr_t)
    (vtable : ptr ItemVTable) (child_count child_index : uint32_t) :
    ItemTreeNode D :=
  {| tag := Item;
     body := item {| offset := offset;
                     vtable := vtable;
                     child_count := child_count;
                     child_index := child_index |} |}.

End sixtyfps.

Import internal.
Import sixtyfps.

(** ** Item trees

    An item tree is a sequence of nodes; the generated code obtains each
    node from [make_item_node]. *)

(** The arguments of one call of [make_item_node]. *)
Record item_args : Type := ItemArgs {
  arg_offset : intptr_t;
  arg_vtable : ptr ItemVTable;
  arg_child_count : uint32_t;
  arg_child_index : uint32_t
}.

(** A tree whose nodes are all built by [make_item_node], one call per
    node, in sequence order. *)
Definition build_item_tree {D : Type} (args : list item_args) :
    list (ItemTreeNode D) :=
  List.map (fun a => make_item_node (arg_offset a) (arg_vtable a)
                                    (arg_child_count a) (arg_child_index a))
      args.

(** The child range [[child_index, child_index + child_count)] of an item
    lies within [[0, n)]. *)
Definition range_within (n : nat) (b : ItemTreeNode.Item_Body) : Prop :=
  forall i : N,
    (ItemTreeNode.child_index b <= i <
       ItemTreeNode.child_index b + ItemTreeNode.child_count b)%N ->
    (i < N.of_nat n)%N.

(** The bounds check on one item, as a computation. *)
Definition range_withinb (n : nat) (b : ItemTreeNode.Item_Body) : bool :=
  (ItemTreeNode.child_count b =? 0)%N ||
  (ItemTreeNode.child_index b + ItemTreeNode.child_count b <=? N.of_nat n)%N.

(** Every item node of the tree keeps its child range inside the tree. *)
Definition tree_in_bounds {D : Type} (tree : list (ItemTreeNode D)) : Prop :=
  Forall (fun node =>
            forall b, ItemTreeNode.read_item node = Some b ->
                      range_within (length tree) b)
         tree.

(** The indices of the children of an item: the contiguous run that starts
    at [child_index] and has [child_count] elements. *)
Definition children (b : ItemTreeNode.Item_Body) : list nat :=
  seq (N.to_nat (ItemTreeNode.child_index b))
      (N.to_nat (ItemTreeNode.child_count b)).

(** ** Callers of the destructor and observers of [run] *)

(** A sequence of destructor invocations, one per pair of arguments. *)
Fixpoint destroy_each {E : Type -> Type}
    (calls : list (ptr ComponentType * ptr ComponentImpl)) : itree E unit :=
  match calls with
  | [] => Ret tt
  | (t, i) :: rest => dummy_destory t i ;; destroy_each rest
  end.

(** The renderer call on the descriptor of [Component] and on the instance
    [c], taken as a pointer to a [ComponentImpl]. *)
Definition renderer_event {Component : Type} `{GeneratedComponent Component}
    (c : ptr Component) : runtimeE unit :=
  sixtyfps_runtime_run_component_with_gl_renderer
    (component_type Component) (reinterpret_cast c).

(** The arguments of the renderer call a computation starts with, if it
    starts with one. *)
Definition renderer_call {R : Type} (t : itree runtimeE R) :
    option (ptr ComponentType * ptr ComponentImpl) :=
  match observe t with
  | VisF e _ =>
      match e with
      | sixtyfps_runtime_run_component_with_gl_renderer ct ci => Some (ct, ci)
      end
  | _ => None
  end.


(** The tree of the walk scenario: a root with two children, which are
    the leaves at indices 1 and 2. A leaf has no children, wherever its
    child index points. *)
Definition root_and_two_leaves {D : Type}
    (root leaf1 leaf2 : intptr_t * ptr ItemVTable)
    (leaf1_index leaf2_index : uint32_t) : list (ItemTreeNode D) :=
  [ make_item_node (fst root) (snd root) 2%N 1%N;
    make_item_node (fst leaf1) (snd leaf1) 0%N leaf1_index;
    make_item_node (fst leaf2) (snd leaf2) 0%N leaf2_index ].

(** Two calls of [make_item_node] with the same arguments, one after the
    other, inside a computation that may also talk to the runtime: the
    function is [constexpr], so each call is a value and no event. *)
Definition make_item_node_twice {D : Type} {E : Type -> Type}
    (a : item_args) : itree E (ItemTreeNode D * ItemTreeNode D) :=
  first <- Ret (make_item_node (arg_offset a) (arg_vtable a)
                               (arg_child_count a) (arg_child_index a)) ;;
  second <- Ret (make_item_node (arg_offset a) (arg_vtable a)
                                (arg_child_count a) (arg_child_index a)) ;;
  Ret (first, second).

(** Calls of [run] on one instance after the other, as a program that
    starts several components of one type in turn does. *)
Fixpoint run_each {Component : Type} `{GeneratedComponent Component}
    (instances : list (ptr Component)) : itree runtimeE unit :=
  match instances with
  | [] => Ret tt
  | c :: rest => run c ;; run_each rest
  end.

(** A runtime that does nothing but record, in order, the arguments of the
    renderer calls it receives, and then comes back. *)
Definition logging_runtime :
    runtimeE ~> Monads.stateT (list (ptr ComponentType * ptr ComponentImpl))
                              (itree void1) :=
  fun (T : Type) (e : runtimeE T)
      (log : list (ptr ComponentType * ptr ComponentImpl)) =>
    match e in runtimeE T' return itree void1 (_ * T') with
    | sixtyfps_runtime_run_component_with_gl_renderer ct ci =>
        Ret (log ++ [(ct, ci)], tt)
    end.

(** ** The runtime's walk over an item tree

    Modelled from the spec: the runtime that walks the tree is not part of
    the sources; this module follows what the specification says of it. *)
Module runtime.

(** One visit of the walk: the item at [visit_index] of the sequence that
    is being walked, reached after [visit_level] indirections. *)
Record visit : Type := Visit {
  visit_level : nat;
  visit_index : nat;
  visit_item : ItemTreeNode.Item_Body
}.

(** How a walk ends: with the visits it made, in order; on a node that
    cannot be read ([Undefined]: an index outside the sequence, or a tag
    that disagrees with the union); or short of fuel. *)
Variant outcome : Type :=
| Done (visits : list visit)
| Undefined
| OutOfFuel.

(** Walks the subtrees rooted at the given indices, one after the other. *)
Fixpoint walk_each (walk_one : nat -> outcome) (indices : list nat) :
    outcome :=
  match indices with
  | [] => Done []
  | i :: rest =>
      match walk_one i with
      | Done first =>
          match walk_each walk_one rest with
          | Done others => Done (first ++ others)
          | stop => stop
          end
      | stop => stop
      end
  end.

Section Walk.
Variable D : Type.

(** The subtree resolver the runtime supplies for indirection nodes. *)
Variable resolve : D -> list (ItemTreeNode D).

(** Modelled from the spec: the walk itself is part of the runtime, which
    is not in the sources. It starts at a node, tells items from
    indirections by the tag, processes an item and then recurses into its
    children over the child-index/child-count range, and for an
    indirection first asks the resolver for the subtree and then descends
    into it from its root. A tree can point back at itself, hence the
    fuel. *)
Fixpoint walk (fuel : nat) (tree : list (ItemTreeNode D))
    (level index : nat) : outcome :=
  match fuel with
  | O => OutOfFuel
  | S fuel' =>
      match nth_error tree index with
      | None => Undefined
      | Some node =>
          match ItemTreeNode.tag node, ItemTreeNode.body node with
          | ItemTreeNode.Item, ItemTreeNode.item b =>
              match walk_each (walk fuel' tree level) (children b) with
              | Done below => Done (Visit level index b :: below)
              | stop => stop
              end
          | ItemTreeNode.DynamicTree, ItemTreeNode.dynamic_tree d =>
              walk fuel' (resolve d) (S level) 0
          | _, _ => Undefined
          end
      end
  end.

(** The walk of a whole tree starts at its root, the first node. *)
Definition walk_tree (fuel : nat) (tree : list (ItemTreeNode D)) : outcome :=
  walk fuel tree 0 0.

End Walk.

End runtime.

(** ** Properties of [make_item_node] *)
Section MakeItemNode.
Variable D : Type.

Lemma make_item_node_consistent o v cc ci :
  ItemTreeNode.consistent (@make_item_node D o v cc ci).
Proof. exact I. Qed.

(** C1: for every tuple of arguments [make_item_node] yields a node
    (whatever the arguments are: nothing is checked), and reading the
    node back gives the tag [Item] and exactly the offset, descriptor,
    child count and child index that were passed. *)
Theorem make_item_node_roundtrip
    (o : intptr_t) (v : ptr ItemVTable) (cc ci : uint32_t) :
  ItemTreeNode.tag (@make_item_node D o v cc ci) = ItemTreeNode.Item /\
  exists b : ItemTreeNode.Item_Body,
    ItemTreeNode.read_item (@make_item_node D o v cc ci) = Some b /\
    ItemTreeNode.offset b = o /\
    ItemTreeNode.vtable b = v /\
    ItemTreeNode.child_count b = cc /\
    ItemTreeNode.child_index b = ci.
Proof.
  split; [reflexivity|].
  eexists; split; [reflexivity|].
  repeat split.
Qed.

(** C9: whatever the arguments, the node [make_item_node] returns carries
    the tag [Item] and holds an item body, never the [DynamicTree] tag or
    body; so every node of a tree built through it is an item. *)
Theorem make_item_node_tag_item
    (o : intptr_t) (v : ptr ItemVTable) (cc ci : uint32_t) :
  ItemTreeNode.tag (@make_item_node D o v cc ci) = ItemTreeNode.Item /\
  ItemTreeNode.tag (@make_item_node D o v cc ci) <> ItemTreeNode.DynamicTree /\
  (forall d : D,
     ItemTreeNode.body (@make_item_node D o v cc ci)
       <> ItemTreeNode.dynamic_tree d) /\
  (forall args : list item_args,
     Forall (fun node => ItemTreeNode.tag node = ItemTreeNode.Item)
            (@build_item_tree D args)).
Proof.
  repeat split; try discriminate.
  intros args. unfold build_item_tree.
  rewrite Forall_map. apply Forall_forall. reflexivity.
Qed.

(** C8: two calls of [make_item_node] with equal arguments return equal
    nodes, and the calls leave the state alone: under every meaning [h] of
    the runtime's events, calling twice from a state [s] ends in [s] with
    the same node twice. *)
Theorem make_item_node_deterministic
    (o o' : intptr_t) (v v' : ptr ItemVTable) (cc cc' ci ci' : uint32_t) :
  o = o' -> v = v' -> cc = cc' -> ci = ci' ->
  @make_item_node D o v cc ci = @make_item_node D o' v' cc' ci' /\
  forall (S : Type) (E F : Type -> Type)
         (h : E ~> Monads.stateT S (itree F)) (s : S),
    eq_itree eq
      (interp_state h (make_item_node_twice (ItemArgs o v cc ci)) s)
      (Ret (s, (@make_item_node D o v cc ci, @make_item_node D o' v' cc' ci'))).
Proof.
  intros -> -> -> ->. split; [reflexivity|].
  intros S E F h s. unfold make_item_node_twice. cbn.
  rewrite !bind_ret_l, interp_state_ret. reflexivity.
Qed.

End MakeItemNode.

(** The determinism statement at the arguments of a root with two
    children. *)
Lemma make_item_node_deterministic_witness :
  @make_item_node unit 0%Z (Ptr 4096) 2%N 1%N
    = @make_item_node unit 0%Z (Ptr 4096) 2%N 1%N /\
  forall (S : Type) (E F : Type -> Type)
         (h : E ~> Monads.stateT S (itree F)) (s : S),
    eq_itree eq
      (interp_state h
         (make_item_node_twice (ItemArgs 0%Z (Ptr 4096) 2%N 1%N)) s)
      (Ret (s, (@make_item_node unit 0%Z (Ptr 4096) 2%N 1%N,
                @make_item_node unit 0%Z (Ptr 4096) 2%N 1%N))).
Proof.
  apply (@make_item_node_deterministic unit 0%Z 0%Z (Ptr 4096) (Ptr 4096)
           2%N 2%N 1%N 1%N); reflexivity.
Defined.

(** ** Item trees built from [make_item_node] *)
Section ItemTree.
Variable D : Type.

Lemma range_within_iff n b :
  range_within n b <->
  (ItemTreeNode.child_count b = 0 \/
   ItemTreeNode.child_index b + ItemTreeNode.child_count b <= N.of_nat n)%N.
Proof.
  unfold range_within. split.
  - intros H.
    destruct (N.eq_dec (ItemTreeNode.child_count b) 0) as [E|E]; [now left|right].
    specialize (H (ItemTreeNode.child_index b + ItemTreeNode.child_count b - 1)%N).
    lia.
  - intros [E|E] i Hi; lia.
Qed.

Lemma range_withinb_spec n b : range_withinb n b = true <-> range_within n b.
Proof.
  rewrite range_within_iff. unfold range_withinb.
  rewrite orb_true_iff, N.eqb_eq, N.leb_le. reflexivity.
Qed.

Lemma build_item_tree_length (args : list item_args) :
  length (@build_item_tree D args) = length args.
Proof. apply length_map. Qed.

Lemma children_spec b i :
  In i (children b) <->
  (ItemTreeNode.child_index b <= N.of_nat i <
     ItemTreeNode.child_index b + ItemTreeNode.child_count b)%N.
Proof.
  unfold children. rewrite in_seq. lia.
Qed.

(** C4, as amended: a tree of N nodes built with [make_item_node] keeps
    every child range within [[0, N)] exactly when the arguments of every
    call do (the range is empty, or [child_index + child_count <= N]);
    [make_item_node] itself checks nothing. *)
Theorem build_item_tree_in_bounds_iff (args : list item_args) :
  tree_in_bounds (@build_item_tree D args) <->
  Forall (fun a =>
            (arg_child_count a = 0 \/
             arg_child_index a + arg_child_count a
               <= N.of_nat (length args))%N)
         args.
Proof.
  unfold tree_in_bounds. rewrite build_item_tree_length.
  unfold build_item_tree. rewrite Forall_map, !Forall_forall.
  split; intros H a Ha; specialize (H a Ha); cbn in *.
  - specialize (H _ eq_refl). apply range_within_iff in H. exact H.
  - intros b [= <-]. apply range_within_iff. exact H.
Qed.

End ItemTree.

(** C4, as stated, fails: a single call with [child_count = 1] and
    [child_index = 1] builds a tree of one node whose child range
    [[1, 2)] is outside [[0, 1)]. *)
Lemma build_item_tree_escapes_bounds :
  ~ tree_in_bounds (@build_item_tree unit [ItemArgs 0%Z (Ptr 4096) 1%N 1%N]).
Proof.
  unfold tree_in_bounds. cbn. intros H.
  inversion H as [|node rest Hnode _]; subst.
  specialize (Hnode _ eq_refl).
  apply range_within_iff in Hnode. cbn in Hnode. lia.
Qed.

(** The amended statement at the three-node tree of a root and its two
    leaves: the arguments are in bounds, hence so is the tree. *)
Lemma build_item_tree_in_bounds_witness :
  tree_in_bounds
    (@build_item_tree unit
       [ItemArgs 0%Z (Ptr 4096) 2%N 1%N;
        ItemArgs 16%Z (Ptr 4096) 0%N 0%N;
        ItemArgs 32%Z (Ptr 4096) 0%N 0%N]).
Proof.
  apply (proj2 (build_item_tree_in_bounds_iff unit _)).
  repeat constructor; cbn; lia.
Defined.

(** ** The walk of the runtime *)
Section WalkProperties.
Variable D : Type.
Variable resolve : D -> list (ItemTreeNode D).

Import runtime.

Lemma walk_each_mono (f g : nat -> outcome) (indices : list nat) :
  (forall i r, In i indices -> f i = Done r -> g i = Done r) ->
  forall r, walk_each f indices = Done r -> walk_each g indices = Done r.
Proof.
  induction indices as [|i rest IH]; intros Hfg r; cbn; [easy|].
  destruct (f i) as [first| |] eqn:Ei; try discriminate.
  rewrite (Hfg i first (or_introl eq_refl) Ei).
  destruct (walk_each f rest) as [others| |] eqn:Er; try discriminate.
  rewrite (IH (fun j rj Hj => Hfg j rj (or_intror Hj)) others eq_refl).
  easy.
Qed.

(** More fuel never changes a finished walk. *)
Lemma walk_fuel_mono (fuel : nat) :
  forall fuel' tree level index r,
    fuel <= fuel' ->
    walk resolve fuel tree level index = Done r ->
    walk resolve fuel' tree level index = Done r.
Proof.
  induction fuel as [|fuel IH]; intros fuel' tree level index r Hle; cbn;
    [discriminate|].
  destruct fuel' as [|fuel']; [lia|]. cbn.
  destruct (nth_error tree index) as [node|]; [|easy].
  destruct (ItemTreeNode.tag node), (ItemTreeNode.body node) as [b|d];
    try easy.
  - destruct (walk_each _ (children b)) as [below| |] eqn:Eb; try discriminate.
    intros [= <-].
    erewrite walk_each_mono; [reflexivity| |exact Eb].
    intros i r _. apply IH. lia.
  - apply IH. lia.
Qed.

(** C6: on the tree of a root with [child_count = 2] and
    [child_index = 1] followed by two leaves, the walk (given any fuel
    from 2 on) visits three nodes: the root, then the nodes at indices 1
    and 2 in that order; and the children of any item are the indices of
    the run [[child_index, child_index + child_count)]. *)
Theorem walk_root_and_two_leaves
    (root leaf1 leaf2 : intptr_t * ptr ItemVTable)
    (leaf1_index leaf2_index : uint32_t) (extra : nat) :
  walk_tree resolve (2 + extra)
    (root_and_two_leaves root leaf1 leaf2 leaf1_index leaf2_index)
  = Done
      [ Visit 0 0 (ItemTreeNode.Build_Item_Body (fst root) (snd root) 2%N 1%N);
        Visit 0 1 (ItemTreeNode.Build_Item_Body
                     (fst leaf1) (snd leaf1) 0%N leaf1_index);
        Visit 0 2 (ItemTreeNode.Build_Item_Body
                     (fst leaf2) (snd leaf2) 0%N leaf2_index) ] /\
  forall (b : ItemTreeNode.Item_Body) (i : nat),
    In i (children b) <->
    (ItemTreeNode.child_index b <= N.of_nat i <
       ItemTreeNode.child_index b + ItemTreeNode.child_count b)%N.
Proof.
  split; [reflexivity | apply children_spec].
Qed.

(** A tree of a single root without children: one visit. *)
Lemma walk_single_root (v : ptr ItemVTable) (extra : nat) :
  walk_tree resolve (1 + extra) [make_item_node 0%Z v 0%N 0%N]
  = Done [Visit 0 0 (ItemTreeNode.Build_Item_Body 0%Z v 0%N 0%N)].
Proof. reflexivity. Qed.

(** A root that names itself as its child is walked without end: no
    amount of fuel finishes. *)
Lemma walk_self_child (v : ptr ItemVTable) (fuel : nat) :
  walk_tree resolve fuel [make_item_node 0%Z v 1%N 0%N] = OutOfFuel.
Proof.
  unfold walk_tree. induction fuel as [|fuel IH]; [reflexivity|].
  change (walk resolve (S fuel) [make_item_node 0%Z v 1%N 0%N] 0 0)
    with (match walk_each (walk resolve fuel [make_item_node 0%Z v 1%N 0%N] 0)
                          [0] with
          | Done below =>
              Done (Visit 0 0 (ItemTreeNode.Build_Item_Body 0%Z v 1%N 0%N)
                      :: below)
          | stop => stop
          end).
  unfold walk_each. rewrite IH. reflexivity.
Qed.

End WalkProperties.

(** ** The destructor of static components *)
Section Destroy.
Variable E : Type -> Type.

(** C5: any number of invocations of [dummy_destory], on any arguments,
    amounts to doing nothing: the sequence of calls is the computation
    that returns at once without a single event, and under every meaning
    of the events it ends in the state it started from. *)
Theorem dummy_destory_no_effect
    (calls : list (ptr ComponentType * ptr ComponentImpl)) :
  eq_itree eq (@destroy_each E calls) (Ret tt) /\
  forall (S : Type) (F : Type -> Type)
         (h : E ~> Monads.stateT S (itree F)) (s : S),
    eq_itree eq (interp_state h (destroy_each calls) s) (Ret (s, tt)).
Proof.
  assert (Hnop : eq_itree eq (@destroy_each E calls) (Ret tt)).
  { induction calls as [|[t i] rest IH]; cbn; [reflexivity|].
    unfold dummy_destory. rewrite bind_ret_l. exact IH. }
  split; [exact Hnop|].
  intros S F h s. rewrite Hnop, interp_state_ret. reflexivity.
Qed.

End Destroy.

(** ** The entry point *)
Section Run.
Context {Component : Type} `{GeneratedComponent Component}.

Lemma run_unfold (c : ptr Component) :
  eq_itree eq (run c) (ITree.trigger (renderer_event c)).
Proof.
  unfold run, renderer_event.
  rewrite bind_trigger. unfold ITree.trigger.
  apply eqit_Vis. intros []. reflexivity.
Qed.

(** C2: [run c] hands control to the runtime and does nothing else: it is
    the single call of the GL renderer's entry point on the address of
    [Component::component_type] and on [c]'s address retyped as a
    [ComponentImpl] pointer; whatever the runtime does on that call is
    what [run c] does. *)
Theorem run_is_renderer_call (c : ptr Component) :
  eq_itree eq (run c)
    (ITree.trigger
       (sixtyfps_runtime_run_component_with_gl_renderer
          (component_type Component) (reinterpret_cast c))) /\
  addr (@reinterpret_cast Component ComponentImpl c) = addr c /\
  forall (F : Type -> Type) (h : runtimeE ~> itree F),
    eutt eq (interp h (run c))
      (h unit (sixtyfps_runtime_run_component_with_gl_renderer
                 (component_type Component) (reinterpret_cast c))).
Proof.
  split; [apply run_unfold|]. split; [reflexivity|].
  intros F h. rewrite run_unfold, interp_trigger. reflexivity.
Qed.

(** C3: [run] has nothing to return but [tt], and it returns when, and
    only when, the runtime's call returns: for every behaviour [h] of the
    runtime over a state [W], [run c] started in [w] can return [r] in
    [w'] exactly if the renderer call started in [w] can return in [w'];
    a runtime that aborts or never comes back leaves [run] without a
    return. *)
Theorem run_returns_with_runtime
    (W : Type) (F : Type -> Type)
    (h : runtimeE ~> Monads.stateT W (itree F))
    (c : ptr Component) (w w' : W) (r : unit) :
  r = tt /\
  (Leaf (w', r) (interp_state h (run c) w) <->
   Leaf (w', tt)
     (h unit (sixtyfps_runtime_run_component_with_gl_renderer
                (component_type Component) (reinterpret_cast c)) w)).
Proof.
  destruct r. split; [reflexivity|].
  assert (Hrun : eutt eq (interp_state h (run c) w)
                         (h unit (renderer_event c) w)).
  { rewrite run_unfold. apply interp_state_trigger. }
  rewrite Hrun. reflexivity.
Qed.

(** C10: the descriptor [run] passes to the renderer is the static member
    of the type [Component], whatever the instance: two calls on two
    instances of the same component type pass the same descriptor. *)
Theorem run_descriptor_from_type (c1 c2 : ptr Component) :
  option_map fst (renderer_call (run c1)) = Some (component_type Component) /\
  option_map fst (renderer_call (run c2))
    = option_map fst (renderer_call (run c1)) /\
  option_map snd (renderer_call (run c1)) = Some (reinterpret_cast c1).
Proof.
  repeat split.
Qed.

End Run.

(** ** Two runtimes *)
Section Scenarios.
Context {Component : Type} `{GeneratedComponent Component}.

Lemma spin_never_returns (E : Type -> Type) (A : Type) (a : A) :
  ~ Leaf a (@ITree.spin E A).
Proof.
  intros HL. remember (@ITree.spin E A) as t eqn:Et.
  induction HL as [t Hobs | t u Hobs HL IH | X e t k x Hobs HL IH]; subst t;
    cbn in Hobs; try discriminate.
  apply IH. now injection Hobs as <-.
Qed.

(** With a runtime whose event loop never ends, [run] never returns. *)
Lemma run_blocks_forever (W : Type) (c : ptr Component) (w w' : W) (r : unit) :
  ~ Leaf (w', r)
      (interp_state
         (fun (T : Type) (_ : runtimeE T) (_ : W) => @ITree.spin void1 (W * T))
         (run c) w).
Proof.
  destruct r.
  rewrite run_unfold, interp_state_trigger.
  apply spin_never_returns.
Qed.

(** With a runtime that logs the call and comes back, [run] returns with
    exactly that one call in the log. *)
Lemma run_logs_one_call (c : ptr Component)
    (log : list (ptr ComponentType * ptr ComponentImpl)) :
  Leaf (log ++ [(component_type Component, reinterpret_cast c)], tt)
    (interp_state
       (fun (T : Type) (e : runtimeE T)
            (l : list (ptr ComponentType * ptr ComponentImpl)) =>
          match e in runtimeE T' return itree void1 (_ * T') with
          | sixtyfps_runtime_run_component_with_gl_renderer ct ci =>
              Ret (l ++ [(ct, ci)], tt)
          end)
       (run c) log).
Proof.
  rewrite run_unfold, interp_state_trigger. cbn.
  apply Leaf_Ret.
Qed.

End Scenarios.

(** ** Further properties of the header *)
Section Further.
Context {Component : Type} `{GeneratedComponent Component}.

(** X1: [make_item_node] keeps its four arguments apart: two calls that
    return the same node were given the same offset, descriptor, child
    count and child index. *)
Theorem make_item_node_injective (D : Type)
    (o o' : intptr_t) (v v' : ptr ItemVTable) (cc cc' ci ci' : uint32_t) :
  @make_item_node D o v cc ci = @make_item_node D o' v' cc' ci' ->
  o = o' /\ v = v' /\ cc = cc' /\ ci = ci'.
Proof.
  unfold make_item_node. intros Heq.
  injection Heq as Ho Hv Hcc Hci. auto.
Qed.

(** X2: the renderer is handed a pointer that tells instances apart: if
    two calls of [run] make the same renderer call, they were given the
    same instance pointer. *)
Theorem run_instance_injective (c1 c2 : ptr Component) :
  renderer_call (run c1) = renderer_call (run c2) -> c1 = c2.
Proof.
  cbn. intros Heq. injection Heq as Haddr.
  destruct c1 as [a1], c2 as [a2]. cbn in Haddr. now subst.
Qed.

(** X3: running several instances in turn makes one renderer call per
    instance, in the order of the instances and each on the component
    type's descriptor: a runtime that records its calls ends with exactly
    these added to its log. *)
Theorem run_each_log (instances : list (ptr Component))
    (log : list (ptr ComponentType * ptr ComponentImpl)) :
  eutt eq
    (interp_state logging_runtime (run_each instances) log)
    (Ret (log ++ List.map (fun c => (component_type Component,
                                     reinterpret_cast c))
                          instances,
          tt)).
Proof.
  revert log. induction instances as [|c rest IH]; intros log; cbn.
  - rewrite interp_state_ret, app_nil_r. reflexivity.
  - rewrite interp_state_bind, run_unfold, interp_state_trigger. cbn.
    rewrite bind_ret_l. cbn. rewrite IH, <- app_assoc. reflexivity.
Qed.

(** X4: invoking [dummy_destory] before and after [run], on whatever
    arguments, changes nothing of what [run] does. *)
Theorem dummy_destory_around_run (c : ptr Component)
    (t t' : ptr ComponentType) (i i' : ptr ComponentImpl) :
  eq_itree eq
    (dummy_destory t i ;; run c ;; dummy_destory t' i')
    (run c).
Proof.
  unfold dummy_destory. rewrite bind_ret_l.
  rewrite <- (bind_ret_r (run c)) at 2.
  apply eqit_bind; [reflexivity|]. intros []. reflexivity.
Qed.


End Further.

(** The injectivity statement at the arguments of a root with two
    children. *)
Lemma make_item_node_injective_witness :
  0%Z = 0%Z /\ @Ptr ItemVTable 4096 = Ptr 4096 /\ 2%N = 2%N /\ 1%N = 1%N.
Proof.
  apply (@make_item_node_injective unit 0%Z 0%Z (Ptr 4096) (Ptr 4096)
           2%N 2%N 1%N 1%N).
  reflexivity.
Defined.

(** The instance statement at a component type whose descriptor sits at
    8192, for the instance at 64. *)
Lemma run_instance_injective_witness : @Ptr unit 64 = @Ptr unit 64.
Proof.
  apply (@run_instance_injective unit
           (Build_GeneratedComponent unit (Ptr 8192)) (Ptr 64) (Ptr 64)).
  reflexivity.
Defined.
